(** * Proof of work: a shallow embedding of [src/lib.rs]

    The crate has three functions: [leading_zeros], [verify] and [search].
    Quantities typed [u32] in Rust ([cost], [meter], the attempt [counter]
    and the zero count of [leading_zeros]) are modelled as [N]; the additions
    to a [u32] are written out with their wrap-around modulo 2^32 (the
    behaviour of a release build, where overflow checks are off).
    Bytes are the Standard Library's [byte]. *)

From Stdlib Require Import NArith List Lia Strings.Byte.
Import ListNotations.
Open Scope N_scope.

(** ** Machine integers *)

Definition U32_MODULUS : N := 2 ^ 32.
Definition U32_MAX : N := U32_MODULUS - 1.

(** [a + b] on [u32] without overflow checks. *)
Definition u32_wrapping_add (a b : N) : N := (a + b) mod U32_MODULUS.

(** [u8::leading_zeros]: scan the bits of the byte from the most
    significant one (bit 7) downwards and count the clear bits met before
    the first set bit. *)
Fixpoint lz_bits (i : nat) (x : N) : N :=
  match i with
  | O => 0
  | S i' => if N.testbit x (N.of_nat i') then 0 else 1 + lz_bits i' x
  end.

Definition u8_leading_zeros (b : byte) : N := lz_bits 8 (Byte.to_N b).

(** ** [leading_zeros]

    The Rust loop keeps a slice [ptr] and a [u32] accumulator [count]:
    an empty [ptr] ends the loop; otherwise the head's zero count [lz] is
    added to [count], [ptr] drops its head, and the loop stops if
    [lz < 8]. *)
Fixpoint leading_zeros_loop (ptr : list byte) (count : N) : N :=
  match ptr with
  | [] => count
  | b :: rest =>
      let lz := u8_leading_zeros b in
      let count' := u32_wrapping_add count lz in
      if lz <? 8 then count' else leading_zeros_loop rest count'
  end.

Definition leading_zeros (bytes : list byte) : N := leading_zeros_loop bytes 0.

(** Bit [i] of a byte sequence in the order [leading_zeros] reads it: bit 0
    is the most significant bit of the first byte; past the end, clear. *)
Fixpoint bit_at (bytes : list byte) (i : nat) : bool :=
  match bytes with
  | [] => false
  | b :: rest =>
      if PeanoNat.Nat.ltb i 8 then N.testbit (Byte.to_N b) (N.of_nat (7 - i))
      else bit_at rest (i - 8)
  end.

(** ** Results and errors *)

Inductive result (A E : Type) : Type :=
| Ok : A -> result A E
| Err : E -> result A E.
Arguments Ok {A E} _.
Arguments Err {A E} _.

(** [pub enum Error { Rand(rand::Error), MeterOverdrawn }], generic in the
    random source's error type. *)
Inductive Error (RandError : Type) : Type :=
| Rand : RandError -> Error RandError
| MeterOverdrawn : Error RandError.
Arguments Rand {RandError} _.
Arguments MeterOverdrawn {RandError}.

Definition NONCE_SIZE : nat := 10.

(** A nonce is the [[u8; NONCE_SIZE]] array filled by the random source. *)
Definition nonce := list byte.

Section ProofOfWork.

(** The Blake3 hash function, an external primitive: the digest of a
    message. *)
Variable blake3 : list byte -> list byte.

(** The incremental [blake3::Hasher]: its state is the input absorbed so
    far; [update] appends, [finalize] hashes all of it. *)
Definition Hasher := list byte.
Definition hasher_new : Hasher := [].
Definition hasher_update (h : Hasher) (input : list byte) : Hasher := h ++ input.
Definition hasher_finalize (h : Hasher) : list byte := blake3 h.

(** [verify bytes nonce cost]. *)
Definition verify (bytes : list byte) (nonce : nonce) (cost : N) : bool :=
  let hasher := hasher_update (hasher_update hasher_new nonce) bytes in
  let hash := hasher_finalize hasher in
  cost <=? leading_zeros hash.

(** The random source: [thread_rng] as the sequence of outcomes of its
    successive [try_fill] calls, from the state it has when [search] is
    called. The state of the generator is the number of draws made. *)
Variable RandError : Type.
Variable rand_stream : nat -> result nonce RandError.

(** The body of [loop] in [search]. [draws] counts the calls of
    [try_fill] so far; [fuel] bounds the number of iterations run, and
    [None] means the loop had not finished within it (the Rust loop has no
    bound of its own once [counter] wraps). The result carries the number
    of draws made. *)
Fixpoint search_loop (fuel : nat) (bytes : list byte) (cost meter counter : N)
    (draws : nat) : option (result nonce (Error RandError) * nat) :=
  match fuel with
  | O => None
  | S fuel' =>
      match rand_stream draws with
      | Err e => Some (Err (Rand e), S draws)
      | Ok nonce =>
          let hasher := hasher_update (hasher_update hasher_new nonce) bytes in
          let hash := hasher_finalize hasher in
          if cost <=? leading_zeros hash then Some (Ok nonce, S draws)
          else
            let counter' := u32_wrapping_add counter 1 in
            if meter <? counter' then Some (Err MeterOverdrawn, S draws)
            else search_loop fuel' bytes cost meter counter' (S draws)
      end
  end.

(** [search bytes cost meter], run for at most [fuel] iterations, with
    [counter = 0] and no draw made yet. *)
Definition search (fuel : nat) (bytes : list byte) (cost meter : N)
    : option (result nonce (Error RandError) * nat) :=
  search_loop fuel bytes cost meter 0 0.

End ProofOfWork.

(** ** Tests of [src/lib.rs], on the embedding *)

Example leading_zeros_works :
  leading_zeros [x4f] = 1 /\ leading_zeros [x2f] = 2 /\
  leading_zeros [x1f] = 3 /\ leading_zeros [x0f] = 4 /\
  leading_zeros [x06] = 5 /\ leading_zeros [x02] = 6 /\
  leading_zeros [x01] = 7 /\ leading_zeros [x00] = 8 /\
  leading_zeros [x00; x4f] = 9 /\ leading_zeros [x00; x01] = 15 /\
  leading_zeros [x00; x00] = 16 /\ leading_zeros (repeat x00 100) = 800 /\
  leading_zeros (repeat xff 100) = 0.
Proof. vm_compute. repeat split. Qed.

(** ** Lemmas on [leading_zeros] *)

Lemma u8_leading_zeros_le_8 (b : byte) : u8_leading_zeros b <= 8.
Proof. destruct b; vm_compute; discriminate. Qed.

Lemma u8_leading_zeros_8_iff (b : byte) : u8_leading_zeros b = 8 <-> b = x00.
Proof.
  split; intros H.
  - destruct b; vm_compute in H; first [reflexivity | discriminate].
  - subst b; reflexivity.
Qed.

Lemma u8_leading_zeros_nonzero_lt_8 (b : byte) :
  b <> x00 -> u8_leading_zeros b < 8.
Proof.
  intros Hb. pose proof (u8_leading_zeros_le_8 b) as Hle.
  assert (u8_leading_zeros b <> 8) by (rewrite u8_leading_zeros_8_iff; exact Hb).
  lia.
Qed.

Lemma u32_wrapping_add_le (a b : N) : u32_wrapping_add a b <= a + b.
Proof. unfold u32_wrapping_add, U32_MODULUS. apply N.Div0.mod_le. Qed.

Lemma u32_wrapping_add_lt (a b : N) : u32_wrapping_add a b < U32_MODULUS.
Proof. unfold u32_wrapping_add, U32_MODULUS. apply N.mod_lt. discriminate. Qed.

Lemma leading_zeros_loop_le (ptr : list byte) (count : N) :
  leading_zeros_loop ptr count <= count + 8 * N.of_nat (length ptr).
Proof.
  revert count; induction ptr as [|b rest IH]; intros count; simpl.
  - lia.
  - pose proof (u8_leading_zeros_le_8 b).
    pose proof (u32_wrapping_add_le count (u8_leading_zeros b)).
    destruct (u8_leading_zeros b <? 8).
    + lia.
    + specialize (IH (u32_wrapping_add count (u8_leading_zeros b))). lia.
Qed.

Lemma leading_zeros_loop_zeros (n : nat) (count : N) :
  count < U32_MODULUS ->
  leading_zeros_loop (repeat x00 n) count = (count + 8 * N.of_nat n) mod U32_MODULUS.
Proof.
  revert count; induction n as [|n IH]; intros count Hc.
  - simpl. rewrite N.add_0_r. symmetry. apply N.mod_small. exact Hc.
  - simpl repeat. cbn [leading_zeros_loop].
    change (u8_leading_zeros x00) with 8. change (8 <? 8) with false. cbv beta iota zeta.
    rewrite IH by apply u32_wrapping_add_lt.
    unfold u32_wrapping_add, U32_MODULUS.
    rewrite N.Div0.add_mod_idemp_l. f_equal. rewrite Nat2N.inj_succ. lia.
Qed.

Lemma leading_zeros_loop_nonzero_lt (ptr : list byte) (count : N) :
  Exists (fun b => b <> x00) ptr ->
  leading_zeros_loop ptr count < count + 8 * N.of_nat (length ptr).
Proof.
  revert count; induction ptr as [|b rest IH]; intros count Hex.
  - inversion Hex.
  - cbn [leading_zeros_loop length].
    pose proof (u32_wrapping_add_le count (u8_leading_zeros b)).
    destruct (N.ltb_spec (u8_leading_zeros b) 8) as [Hlt|Hge].
    + lia.
    + assert (Hb : b = x00).
      { apply u8_leading_zeros_8_iff. pose proof (u8_leading_zeros_le_8 b). lia. }
      inversion Hex as [? ? Hhd | ? ? Htl]; subst.
      * contradiction.
      * specialize (IH (u32_wrapping_add count (u8_leading_zeros x00)) Htl).
        change (u8_leading_zeros x00) with 8 in *. lia.
Qed.

Lemma Forall_zero_repeat (b : list byte) :
  Forall (fun x => x = x00) b -> b = repeat x00 (length b).
Proof.
  induction 1 as [|x l Hx _ IH]; simpl; [reflexivity|]. subst x. f_equal. exact IH.
Qed.

Lemma repeat_zero_Forall (n : nat) : Forall (fun x => x = x00) (repeat x00 n).
Proof. induction n; simpl; constructor; auto. Qed.

(** The number of zero bytes at which [count] reaches 2^32. *)
Definition u32_overflow_zero_bytes : nat := N.to_nat (2 ^ 29).

Lemma leading_zeros_overflow :
  leading_zeros (repeat x00 u32_overflow_zero_bytes) = 0.
Proof.
  unfold leading_zeros, u32_overflow_zero_bytes.
  rewrite leading_zeros_loop_zeros by (vm_compute; reflexivity).
  rewrite N2Nat.id. vm_compute. reflexivity.
Qed.

Lemma leading_zeros_zero_bytes (n : nat) :
  8 * N.of_nat n < U32_MODULUS -> leading_zeros (repeat x00 n) = 8 * N.of_nat n.
Proof.
  intros Hn. unfold leading_zeros.
  rewrite leading_zeros_loop_zeros by (vm_compute; reflexivity).
  rewrite N.add_0_l. apply N.mod_small. exact Hn.
Qed.

(** ** Claims on [leading_zeros] *)

(** On the inputs where the [u32] count does not overflow, [leading_zeros]
    is 0 on the empty sequence, [8 * N] on [N] zero bytes, and, when the
    first byte is non-zero, that byte's own count, below 8, whatever
    follows. *)
Theorem C3_leading_zeros_cases :
  leading_zeros [] = 0 /\
  (forall n : nat, 8 * N.of_nat n < U32_MODULUS ->
     leading_zeros (repeat x00 n) = 8 * N.of_nat n) /\
  (forall (b : byte) (rest : list byte), b <> x00 ->
     leading_zeros (b :: rest) = u8_leading_zeros b /\ u8_leading_zeros b < 8).
Proof.
  split; [reflexivity|split].
  - exact leading_zeros_zero_bytes.
  - intros b rest Hb. pose proof (u8_leading_zeros_nonzero_lt_8 b Hb) as Hlt.
    split; [|exact Hlt].
    unfold leading_zeros. cbn [leading_zeros_loop].
    rewrite (proj2 (N.ltb_lt _ _) Hlt).
    unfold u32_wrapping_add, U32_MODULUS. rewrite N.add_0_l.
    apply N.mod_small. lia.
Qed.

Lemma C3_witness :
  leading_zeros [] = 0 /\ leading_zeros (repeat x00 3) = 24 /\
  leading_zeros [x01; xff] = 7.
Proof.
  destruct C3_leading_zeros_cases as [H0 [Hz Hnz]].
  split; [exact H0|split].
  - apply (Hz 3%nat). vm_compute. reflexivity.
  - pose proof (Hnz x01 [xff] ltac:(discriminate)) as [H _]. exact H.
Defined.

(** C3 (code bug): on 2^29 zero bytes [leading_zeros] does not return
    [8 * 2^29]: the [u32] count overflows (to 0 in a release build; a debug
    build panics). *)
Lemma C3_zero_bytes_overflow :
  leading_zeros (repeat x00 u32_overflow_zero_bytes)
  <> 8 * N.of_nat u32_overflow_zero_bytes.
Proof.
  rewrite leading_zeros_overflow. unfold u32_overflow_zero_bytes.
  rewrite N2Nat.id. vm_compute. discriminate.
Qed.

(** [leading_zeros b] is at most [8 * length b] (so at most 256 on a
    32-byte digest); if it equals [8 * length b] then every byte is zero;
    and an all-zero [b] whose [8 * length b] fits in a [u32] has
    [8 * length b] leading zeros. *)
Theorem C9_leading_zeros_bound :
  forall b : list byte,
  leading_zeros b <= 8 * N.of_nat (length b) /\
  (length b = 32%nat -> leading_zeros b <= 256) /\
  (leading_zeros b = 8 * N.of_nat (length b) -> Forall (fun x => x = x00) b) /\
  (Forall (fun x => x = x00) b -> 8 * N.of_nat (length b) < U32_MODULUS ->
     leading_zeros b = 8 * N.of_nat (length b)).
Proof.
  intros b. pose proof (leading_zeros_loop_le b 0) as Hle.
  split; [exact Hle|split; [|split]].
  - intros Hlen. rewrite Hlen in Hle. exact Hle.
  - intros Heq.
    destruct (Forall_Exists_dec (fun x => x = x00)
                (fun x => Byte.byte_eq_dec x x00) b) as [Hall|Hex]; [exact Hall|].
    pose proof (leading_zeros_loop_nonzero_lt b 0 Hex) as Hlt.
    unfold leading_zeros in Heq. lia.
  - intros Hall Hfit. rewrite (Forall_zero_repeat b Hall).
    rewrite repeat_length. apply leading_zeros_zero_bytes.
    rewrite <- (repeat_length x00 (length b)), <- (Forall_zero_repeat b Hall).
    exact Hfit.
Qed.

Lemma C9_witness :
  leading_zeros [x00; x00] = 16 /\ leading_zeros [x00; x10] <= 16.
Proof.
  split.
  - apply (proj2 (proj2 (proj2 (C9_leading_zeros_bound [x00; x00])))).
    + repeat constructor.
    + vm_compute. reflexivity.
  - apply (proj1 (C9_leading_zeros_bound [x00; x10])).
Defined.

(** C9 (code bug): the sequence of 2^29 zero bytes is all zero, yet
    [leading_zeros] does not return 8 times its length: the [u32] count
    overflows. *)
Lemma C9_all_zero_not_8_len :
  Forall (fun x => x = x00) (repeat x00 u32_overflow_zero_bytes) /\
  leading_zeros (repeat x00 u32_overflow_zero_bytes)
  <> 8 * N.of_nat (length (repeat x00 u32_overflow_zero_bytes)).
Proof.
  split; [apply repeat_zero_Forall|].
  rewrite repeat_length, leading_zeros_overflow. unfold u32_overflow_zero_bytes.
  rewrite N2Nat.id. vm_compute. discriminate.
Qed.

(** ** Lemmas on [search] *)

Section SearchFacts.

Variable blake3 : list byte -> list byte.
Variable RandError : Type.
Variable rand_stream : nat -> result nonce RandError.

Local Abbreviation loop := (search_loop blake3 RandError rand_stream).

Lemma search_loop_S (fuel : nat) (bytes : list byte) (cost meter counter : N)
    (d : nat) :
  loop (S fuel) bytes cost meter counter d =
  match rand_stream d with
  | Err e => Some (Err (Rand e), S d)
  | Ok n =>
      if verify blake3 bytes n cost then Some (Ok n, S d)
      else if meter <? u32_wrapping_add counter 1 then Some (Err MeterOverdrawn, S d)
      else loop fuel bytes cost meter (u32_wrapping_add counter 1) (S d)
  end.
Proof. reflexivity. Qed.

(** The nonce hashed by an attempt fails the cost. *)
Definition rejected (bytes : list byte) (cost : N) (i : nat) : Prop :=
  exists n, rand_stream i = Ok n /\ verify blake3 bytes n cost = false.

Lemma verify_unfold (bytes : list byte) (n : nonce) (cost : N) :
  verify blake3 bytes n cost = (cost <=? leading_zeros (blake3 (n ++ bytes))).
Proof. reflexivity. Qed.

Lemma search_loop_ok (fuel : nat) (bytes : list byte) (cost meter counter : N)
    (d : nat) (n : nonce) (k : nat) :
  loop fuel bytes cost meter counter d = Some (Ok n, k) ->
  verify blake3 bytes n cost = true /\ rand_stream (pred k) = Ok n.
Proof.
  revert counter d; induction fuel as [|fuel IH]; intros counter d H.
  - discriminate.
  - rewrite search_loop_S in H.
    destruct (rand_stream d) as [m|e] eqn:Hd; [|discriminate].
    destruct (verify blake3 bytes m cost) eqn:Hc.
    + injection H as <- <-. split; [exact Hc|exact Hd].
    + destruct (meter <? u32_wrapping_add counter 1); [discriminate|].
      exact (IH _ _ H).
Qed.

Lemma search_loop_rand_error (fuel : nat) (bytes : list byte) (cost meter counter : N)
    (d : nat) (e : RandError) (k : nat) :
  loop fuel bytes cost meter counter d = Some (Err (Rand e), k) ->
  exists j, k = S j /\ (d <= j)%nat /\ rand_stream j = Err e /\
    forall i, (d <= i < j)%nat -> rejected bytes cost i.
Proof.
  revert counter d; induction fuel as [|fuel IH]; intros counter d H.
  - discriminate.
  - rewrite search_loop_S in H.
    destruct (rand_stream d) as [m|e'] eqn:Hd.
    + destruct (verify blake3 bytes m cost) eqn:Hc; [discriminate|].
      destruct (meter <? u32_wrapping_add counter 1); [discriminate|].
      destruct (IH _ _ H) as (j & Hk & Hj & He & Hrej).
      exists j. split; [exact Hk|split; [lia|split; [exact He|]]].
      intros i Hi. destruct (PeanoNat.Nat.eq_dec i d) as [->|Hne].
      * exists m. split; [exact Hd|exact Hc].
      * apply Hrej. lia.
    + injection H as <- <-. exists d.
      split; [reflexivity|split; [lia|split; [exact Hd|]]]. intros i Hi; lia.
Qed.

Lemma search_loop_overdrawn_rejected (fuel : nat) (bytes : list byte)
    (cost meter counter : N) (d k : nat) :
  loop fuel bytes cost meter counter d = Some (Err MeterOverdrawn, k) ->
  (d < k)%nat /\ forall i, (d <= i < k)%nat -> rejected bytes cost i.
Proof.
  revert counter d; induction fuel as [|fuel IH]; intros counter d H.
  - discriminate.
  - rewrite search_loop_S in H.
    destruct (rand_stream d) as [m|e] eqn:Hd; [|discriminate].
    destruct (verify blake3 bytes m cost) eqn:Hc; [discriminate|].
    assert (Hm : rejected bytes cost d) by (exists m; split; assumption).
    destruct (meter <? u32_wrapping_add counter 1).
    + injection H as <-. split; [lia|]. intros i Hi.
      replace i with d by lia. exact Hm.
    + destruct (IH _ _ H) as [Hlt Hrej]. split; [lia|].
      intros i Hi. destruct (PeanoNat.Nat.eq_dec i d) as [->|Hne]; [exact Hm|].
      apply Hrej. lia.
Qed.

(** With [meter = u32::MAX] the wrapped [counter] never exceeds [meter]. *)
Lemma search_loop_overdrawn_meter_max (fuel : nat) (bytes : list byte)
    (cost meter counter : N) (d k : nat) :
  U32_MAX <= meter ->
  loop fuel bytes cost meter counter d <> Some (Err MeterOverdrawn, k).
Proof.
  intros Hmax. revert counter d; induction fuel as [|fuel IH]; intros counter d H.
  - discriminate.
  - rewrite search_loop_S in H.
    destruct (rand_stream d) as [m|e] eqn:Hd; [|discriminate].
    destruct (verify blake3 bytes m cost); [discriminate|].
    pose proof (u32_wrapping_add_lt counter 1) as Hlt.
    unfold U32_MAX in Hmax.
    destruct (N.ltb_spec meter (u32_wrapping_add counter 1)); [lia|].
    exact (IH _ _ H).
Qed.

Lemma u32_wrapping_add_small (a b : N) :
  a + b < U32_MODULUS -> u32_wrapping_add a b = a + b.
Proof. intros H. unfold u32_wrapping_add. apply N.mod_small. exact H. Qed.

Lemma search_loop_overdrawn_count (fuel : nat) (bytes : list byte)
    (cost meter counter : N) (d k : nat) :
  meter < U32_MAX -> counter <= meter ->
  loop fuel bytes cost meter counter d = Some (Err MeterOverdrawn, k) ->
  N.of_nat k = N.of_nat d + (meter + 1 - counter).
Proof.
  intros Hmax. revert counter d; induction fuel as [|fuel IH]; intros counter d Hc H.
  - discriminate.
  - rewrite search_loop_S in H.
    destruct (rand_stream d) as [m|e] eqn:Hd; [|discriminate].
    destruct (verify blake3 bytes m cost); [discriminate|].
    rewrite u32_wrapping_add_small in H by (unfold U32_MAX in Hmax; lia).
    destruct (N.ltb_spec meter (counter + 1)).
    + injection H as <-. rewrite Nat2N.inj_succ. lia.
    + specialize (IH (counter + 1) (S d) ltac:(lia) H). rewrite Nat2N.inj_succ in IH. lia.
Qed.

Lemma search_loop_exhausts (fuel : nat) (bytes : list byte)
    (cost meter counter : N) (d : nat) :
  meter < U32_MAX -> counter <= meter ->
  meter + 1 - counter <= N.of_nat fuel ->
  (forall i, (d <= i)%nat -> rejected bytes cost i) ->
  exists k, loop fuel bytes cost meter counter d = Some (Err MeterOverdrawn, k) /\
    N.of_nat k = N.of_nat d + (meter + 1 - counter).
Proof.
  intros Hmax. revert counter d; induction fuel as [|fuel IH];
    intros counter d Hc Hfuel Hrej.
  - simpl in Hfuel. lia.
  - destruct (Hrej d (le_n d)) as (m & Hd & Hv).
    rewrite search_loop_S, Hd, Hv.
    rewrite u32_wrapping_add_small by (unfold U32_MAX in Hmax; lia).
    destruct (N.ltb_spec meter (counter + 1)).
    + exists (S d). split; [reflexivity|]. rewrite Nat2N.inj_succ. lia.
    + rewrite Nat2N.inj_succ in Hfuel.
      destruct (IH (counter + 1) (S d)) as (k & Hk & Hkd);
        [lia|lia|intros i Hi; apply Hrej; lia|].
      exists k. split; [exact Hk|]. rewrite Nat2N.inj_succ in Hkd. lia.
Qed.

(** With [meter = u32::MAX] and every attempt rejected, the loop runs for
    as long as it is given: the wrapped [counter] never exceeds [meter]. *)
Lemma search_loop_meter_max_runs (fuel : nat) (bytes : list byte)
    (cost counter : N) (d : nat) :
  (forall i, (d <= i)%nat -> rejected bytes cost i) ->
  loop fuel bytes cost U32_MAX counter d = None.
Proof.
  revert counter d; induction fuel as [|fuel IH]; intros counter d Hrej;
    [reflexivity|].
  destruct (Hrej d (le_n d)) as (m & Hd & Hv).
  rewrite search_loop_S, Hd, Hv.
  pose proof (u32_wrapping_add_lt counter 1).
  destruct (N.ltb_spec U32_MAX (u32_wrapping_add counter 1));
    [unfold U32_MAX in *; lia|].
  apply IH. intros i Hi. apply Hrej. lia.
Qed.

Lemma verify_false_above_digest (bytes : list byte) (n : nonce) (cost : N) :
  (forall m, length (blake3 m) = 32%nat) -> 256 < cost ->
  verify blake3 bytes n cost = false.
Proof.
  intros Hlen Hcost. rewrite verify_unfold.
  pose proof (leading_zeros_loop_le (blake3 (n ++ bytes)) 0) as Hle.
  rewrite Hlen in Hle. apply N.leb_gt. unfold leading_zeros. simpl in Hle. lia.
Qed.

End SearchFacts.

(** ** Claims on [verify] and [search] *)

(** C1: [verify bytes nonce cost] holds exactly when the Blake3 digest of
    the nonce bytes followed by the payload bytes has at least [cost]
    leading zero bits. *)
Theorem C1_verify_spec (blake3 : list byte -> list byte) (bytes : list byte)
    (n : nonce) (cost : N) :
  verify blake3 bytes n cost = true <-> cost <= leading_zeros (blake3 (n ++ bytes)).
Proof. rewrite verify_unfold. apply N.leb_le. Qed.

(** C2: a nonce returned by [search] passes [verify] at the searched cost. *)
Theorem C2_search_ok_verifies (blake3 : list byte -> list byte) (RandError : Type)
    (rand_stream : nat -> result nonce RandError) (fuel : nat) (bytes : list byte)
    (cost meter : N) (n : nonce) (k : nat) :
  search blake3 RandError rand_stream fuel bytes cost meter = Some (Ok n, k) ->
  verify blake3 bytes n cost = true.
Proof. intros H. exact (proj1 (search_loop_ok _ _ _ _ _ _ _ _ _ _ _ H)). Qed.

Lemma C2_witness :
  verify (fun _ => repeat x00 32) [] (repeat x00 10) 5 = true.
Proof.
  apply (C2_search_ok_verifies (fun _ => repeat x00 32) unit
           (fun _ => Ok (repeat x00 10)) 1 [] 5 0 (repeat x00 10) 1).
  vm_compute. reflexivity.
Defined.

(** C4 (code): when [meter < u32::MAX] and no attempt succeeds, [search]
    draws [meter + 1] nonces, one more than [meter], before it fails with
    [MeterOverdrawn]. *)
Theorem C4_search_tests_meter_plus_one (blake3 : list byte -> list byte)
    (RandError : Type) (rand_stream : nat -> result nonce RandError)
    (fuel : nat) (bytes : list byte) (cost meter : N) :
  meter < U32_MAX ->
  (forall i, rejected blake3 RandError rand_stream bytes cost i) ->
  meter + 1 <= N.of_nat fuel ->
  exists k, search blake3 RandError rand_stream fuel bytes cost meter
              = Some (Err MeterOverdrawn, k) /\ N.of_nat k = meter + 1.
Proof.
  intros Hmax Hrej Hfuel.
  destruct (search_loop_exhausts blake3 RandError rand_stream fuel bytes cost meter 0 0)
    as (k & Hk & Hkn); [exact Hmax|lia|lia|intros i _; apply Hrej|].
  exists k. split; [exact Hk|]. simpl in Hkn. lia.
Qed.

Lemma C4_witness :
  exists k, search (fun _ => repeat xff 32) unit (fun _ => Ok (repeat x00 10))
              1 [] 1 0 = Some (Err MeterOverdrawn, k) /\ N.of_nat k = 1.
Proof.
  apply (C4_search_tests_meter_plus_one (fun _ => repeat xff 32) unit
           (fun _ => Ok (repeat x00 10)) 1 [] 1 0).
  - vm_compute. reflexivity.
  - intros i. exists (repeat x00 10). split; [reflexivity|vm_compute; reflexivity].
  - vm_compute. discriminate.
Defined.

(** C5: [verify] is monotonic in [cost]. *)
Theorem C5_verify_monotone (blake3 : list byte -> list byte) (bytes : list byte)
    (n : nonce) (c C : N) :
  c <= C -> verify blake3 bytes n C = true -> verify blake3 bytes n c = true.
Proof.
  rewrite !verify_unfold, !N.leb_le. lia.
Qed.

Lemma C5_witness :
  verify (fun _ => [x01]) [] [] 3 = true.
Proof.
  apply (C5_verify_monotone (fun _ => [x01]) [] [] 3 7).
  - vm_compute. discriminate.
  - reflexivity.
Defined.

(** C6 (code): with a 32-byte digest and [cost > 256], [search] never
    returns a nonce, at any meter. When every draw succeeds it fails with
    [MeterOverdrawn] for [meter < u32::MAX]; at [meter = u32::MAX] the
    wrapped [counter] never exceeds [meter] and the loop never returns. *)
Theorem C6_search_cost_above_digest (blake3 : list byte -> list byte)
    (RandError : Type) (rand_stream : nat -> result nonce RandError)
    (bytes : list byte) (cost : N) :
  (forall m, length (blake3 m) = 32%nat) -> 256 < cost ->
  (forall fuel meter n k,
     search blake3 RandError rand_stream fuel bytes cost meter <> Some (Ok n, k)) /\
  ((forall i, exists n, rand_stream i = Ok n) ->
   (forall meter, meter < U32_MAX ->
      exists k, search blake3 RandError rand_stream (N.to_nat (meter + 1)) bytes cost meter
                  = Some (Err MeterOverdrawn, k)) /\
   (forall fuel, search blake3 RandError rand_stream fuel bytes cost U32_MAX = None)).
Proof.
  intros Hlen Hcost. split.
  - intros fuel meter n k H.
    destruct (search_loop_ok _ _ _ _ _ _ _ _ _ _ _ H) as [Hv _].
    rewrite (verify_false_above_digest blake3 bytes n cost Hlen Hcost) in Hv.
    discriminate.
  - intros Hok.
    assert (Hrej : forall i, rejected blake3 RandError rand_stream bytes cost i).
    { intros i. destruct (Hok i) as [n Hn]. exists n. split; [exact Hn|].
      apply verify_false_above_digest; assumption. }
    split.
    + intros meter Hmax.
      destruct (search_loop_exhausts blake3 RandError rand_stream
                  (N.to_nat (meter + 1)) bytes cost meter 0 0) as (k & Hk & _);
        [exact Hmax|lia|rewrite N2Nat.id; lia|intros i _; apply Hrej|].
      exists k. exact Hk.
    + intros fuel. apply search_loop_meter_max_runs. intros i _. apply Hrej.
Qed.

Lemma C6_witness :
  (exists k, search (fun _ => repeat x00 32) unit (fun _ => Ok (repeat x00 10))
               (N.to_nat (0 + 1)) [] 257 0 = Some (Err MeterOverdrawn, k)) /\
  search (fun _ => repeat x00 32) unit (fun _ => Ok (repeat x00 10))
    5 [] 257 U32_MAX = None.
Proof.
  destruct (C6_search_cost_above_digest (fun _ => repeat x00 32) unit
              (fun _ => Ok (repeat x00 10)) [] 257) as [_ H];
    [intros m; reflexivity|vm_compute; reflexivity|].
  destruct H as [Hover Hrun]; [intros i; exists (repeat x00 10); reflexivity|].
  split; [apply Hover; vm_compute; reflexivity|apply Hrun].
Defined.

(** C7: [verify] is a function of [(bytes, nonce, cost)] alone: for a nonce
    found by two searches (other random sources, costs and meters), the
    verdict on it is the same, and is fixed by the digest of
    [nonce ++ bytes]. *)
Theorem C7_verify_deterministic (blake3 : list byte -> list byte)
    (R1 : Type) (s1 : nat -> result nonce R1) (R2 : Type) (s2 : nat -> result nonce R2)
    (f1 f2 : nat) (bytes : list byte) (c1 c2 m1 m2 cost : N) (n : nonce) (k1 k2 : nat) :
  search blake3 R1 s1 f1 bytes c1 m1 = Some (Ok n, k1) ->
  search blake3 R2 s2 f2 bytes c2 m2 = Some (Ok n, k2) ->
  verify blake3 bytes n cost = verify blake3 bytes n cost /\
  verify blake3 bytes n cost = (cost <=? leading_zeros (blake3 (n ++ bytes))).
Proof. intros _ _. split; [reflexivity|apply verify_unfold]. Qed.

Lemma C7_witness :
  verify (fun _ => repeat x00 32) [] (repeat x00 10) 9 = true.
Proof.
  destruct (C7_verify_deterministic (fun _ => repeat x00 32)
              unit (fun _ => Ok (repeat x00 10)) bool (fun _ => Ok (repeat x00 10))
              1 4 [] 3 200 0 7 9 (repeat x00 10) 1 1) as [_ H];
    [vm_compute; reflexivity|vm_compute; reflexivity|].
  rewrite H. vm_compute. reflexivity.
Defined.

(** C8: [Error] has exactly two kinds, [Rand e] wrapping the random
    source's error and [MeterOverdrawn], and they are distinct. A failing
    draw is not retried: [search] returns [Rand e] with the error [e] of
    the first draw that failed, all earlier draws having been rejected
    nonces; a first draw that fails ends the search at once. *)
Theorem C8_error_kinds (blake3 : list byte -> list byte) (RandError : Type)
    (rand_stream : nat -> result nonce RandError) :
  (forall err : Error RandError, (exists e, err = Rand e) \/ err = MeterOverdrawn) /\
  (forall e : RandError, Rand e <> MeterOverdrawn) /\
  (forall e1 e2 : RandError, Rand e1 = Rand e2 -> e1 = e2) /\
  (forall fuel bytes cost meter e k,
     search blake3 RandError rand_stream fuel bytes cost meter = Some (Err (Rand e), k) ->
     exists j, k = S j /\ rand_stream j = Err e /\
       forall i, (i < j)%nat -> rejected blake3 RandError rand_stream bytes cost i) /\
  (forall fuel bytes cost meter e,
     rand_stream 0%nat = Err e ->
     search blake3 RandError rand_stream (S fuel) bytes cost meter
       = Some (Err (Rand e), 1%nat)).
Proof.
  split; [intros [e|]; [left; exists e; reflexivity|right; reflexivity]|].
  split; [intros e H; discriminate H|].
  split; [intros e1 e2 H; injection H as H; exact H|].
  split.
  - intros fuel bytes cost meter e k H.
    destruct (search_loop_rand_error _ _ _ _ _ _ _ _ _ _ _ H) as (j & Hk & _ & He & Hrej).
    exists j. split; [exact Hk|split; [exact He|]].
    intros i Hi. apply Hrej. lia.
  - intros fuel bytes cost meter e He.
    unfold search. rewrite search_loop_S, He. reflexivity.
Qed.

Lemma C8_witness :
  search (fun _ => repeat x00 32) unit (fun _ => Err tt) 3 [] 0 0
    = Some (Err (Rand tt), 1%nat) /\
  exists j, (1 = S j)%nat /\ (fun _ : nat => @Err nonce unit tt) j = Err tt.
Proof.
  destruct (C8_error_kinds (fun _ => repeat x00 32) unit (fun _ => Err tt))
    as (_ & _ & _ & Hfwd & Hfirst).
  assert (H : search (fun _ => repeat x00 32) unit (fun _ => Err tt) 3 [] 0 0
                = Some (Err (Rand tt), 1%nat)) by (apply Hfirst; reflexivity).
  split; [exact H|].
  destruct (Hfwd 3%nat [] 0 0 tt 1%nat H) as (j & Hj & He & _).
  exists j. split; assumption.
Defined.

(** C10: [search] makes an attempt before it looks at the meter: with
    [meter = 0] it draws exactly one nonce, and returns it if it passes;
    and whenever it fails with [MeterOverdrawn] it has drawn and rejected
    exactly [meter + 1] nonces. *)
Theorem C10_attempt_before_meter (blake3 : list byte -> list byte) (RandError : Type)
    (rand_stream : nat -> result nonce RandError) (bytes : list byte) (cost : N) :
  (forall fuel, exists r,
     search blake3 RandError rand_stream (S fuel) bytes cost 0 = Some (r, 1%nat)) /\
  (forall fuel n, rand_stream 0%nat = Ok n -> verify blake3 bytes n cost = true ->
     search blake3 RandError rand_stream (S fuel) bytes cost 0 = Some (Ok n, 1%nat)) /\
  (forall fuel meter k,
     search blake3 RandError rand_stream fuel bytes cost meter
       = Some (Err MeterOverdrawn, k) ->
     N.of_nat k = meter + 1 /\
     forall i, (i < k)%nat -> rejected blake3 RandError rand_stream bytes cost i).
Proof.
  split; [|split].
  - intros fuel. unfold search. rewrite search_loop_S.
    destruct (rand_stream 0%nat) as [n|e]; [|eexists; reflexivity].
    destruct (verify blake3 bytes n cost); eexists; reflexivity.
  - intros fuel n Hn Hv. unfold search. rewrite search_loop_S, Hn, Hv. reflexivity.
  - intros fuel meter k H. split.
    + destruct (N.lt_ge_cases meter U32_MAX) as [Hlt|Hge].
      * pose proof (search_loop_overdrawn_count _ _ _ _ _ _ _ _ _ _ Hlt
                      (N.le_0_l meter) H) as Hk.
        simpl in Hk. lia.
      * exfalso. exact (search_loop_overdrawn_meter_max _ _ _ _ _ _ _ _ _ _ Hge H).
    + destruct (search_loop_overdrawn_rejected _ _ _ _ _ _ _ _ _ _ H) as [_ Hrej].
      intros i Hi. apply Hrej. lia.
Qed.

Lemma C10_witness :
  search (fun _ => repeat x00 32) unit (fun _ => Ok (repeat x00 10)) 1 [] 3 0
    = Some (Ok (repeat x00 10), 1%nat) /\
  N.of_nat 3 = 2 + 1.
Proof.
  destruct (C10_attempt_before_meter (fun _ => repeat x00 32) unit
              (fun _ => Ok (repeat x00 10)) [] 3) as (_ & Hok & _).
  destruct (C10_attempt_before_meter (fun _ => repeat xff 32) unit
              (fun _ => Ok (repeat x00 10)) [] 1) as (_ & _ & Hover).
  split.
  - apply (Hok 0%nat); reflexivity.
  - apply (proj1 (Hover 5%nat 2 3%nat ltac:(vm_compute; reflexivity))).
Defined.

(** ** Further properties of [leading_zeros] *)

Lemma u8_leading_zeros_bits (b : byte) :
  (forall t, (t < N.to_nat (u8_leading_zeros b))%nat ->
     N.testbit (Byte.to_N b) (N.of_nat (7 - t)) = false) /\
  (u8_leading_zeros b < 8 ->
     N.testbit (Byte.to_N b) (N.of_nat (7 - N.to_nat (u8_leading_zeros b))) = true).
Proof.
  destruct b; vm_compute; split;
    try (intros t Ht; do 8 (destruct t as [|t]; [first [reflexivity | lia]|]); lia);
    first [reflexivity | intros H; first [reflexivity | discriminate H]].
Qed.

Lemma leading_zeros_loop_shift (ptr : list byte) (s : N) :
  s < U32_MODULUS ->
  leading_zeros_loop ptr s = (s + leading_zeros_loop ptr 0) mod U32_MODULUS.
Proof.
  revert s; induction ptr as [|b rest IH]; intros s Hs.
  - simpl. rewrite N.add_0_r. symmetry. apply N.mod_small. exact Hs.
  - cbn [leading_zeros_loop]. pose proof (u8_leading_zeros_le_8 b) as Hle.
    assert (H0 : u32_wrapping_add 0 (u8_leading_zeros b) = u8_leading_zeros b).
    { apply u32_wrapping_add_small. unfold U32_MODULUS. lia. }
    rewrite H0.
    destruct (u8_leading_zeros b <? 8).
    + unfold u32_wrapping_add. reflexivity.
    + rewrite (IH (u32_wrapping_add s (u8_leading_zeros b))) by apply u32_wrapping_add_lt.
      rewrite (IH (u8_leading_zeros b)) by (unfold U32_MODULUS; lia).
      unfold u32_wrapping_add.
      rewrite N.Div0.add_mod_idemp_l, N.Div0.add_mod_idemp_r. f_equal. lia.
Qed.

Lemma leading_zeros_loop_app_nonzero (a c : list byte) (count : N) :
  Exists (fun b => b <> x00) a ->
  leading_zeros_loop (a ++ c) count = leading_zeros_loop a count.
Proof.
  revert count; induction a as [|b rest IH]; intros count Hex.
  - inversion Hex.
  - cbn [app leading_zeros_loop].
    destruct (N.ltb_spec (u8_leading_zeros b) 8) as [Hlt|Hge]; [reflexivity|].
    assert (Hb : b = x00).
    { apply u8_leading_zeros_8_iff. pose proof (u8_leading_zeros_le_8 b). lia. }
    inversion Hex as [? ? Hhd | ? ? Htl]; subst; [contradiction|].
    apply IH. exact Htl.
Qed.

Lemma leading_zeros_loop_app_zeros (a c : list byte) (count : N) :
  Forall (fun x => x = x00) a -> count < U32_MODULUS ->
  leading_zeros_loop (a ++ c) count
  = leading_zeros_loop c ((count + 8 * N.of_nat (length a)) mod U32_MODULUS).
Proof.
  intros Hall. revert count; induction Hall as [|x a Hx _ IH]; intros count Hc.
  - simpl. rewrite N.add_0_r, N.mod_small by exact Hc. reflexivity.
  - subst x. cbn [app leading_zeros_loop].
    change (u8_leading_zeros x00) with 8. change (8 <? 8) with false. cbv beta iota zeta.
    rewrite IH by apply u32_wrapping_add_lt. f_equal.
    unfold u32_wrapping_add. rewrite N.Div0.add_mod_idemp_l. f_equal.
    cbn [length]. rewrite Nat2N.inj_succ. lia.
Qed.

Lemma leading_zeros_cons (b : byte) (rest : list byte) :
  8 * N.of_nat (length (b :: rest)) < U32_MODULUS ->
  leading_zeros (b :: rest)
  = if u8_leading_zeros b <? 8 then u8_leading_zeros b else 8 + leading_zeros rest.
Proof.
  intros Hfit. unfold leading_zeros. cbn [leading_zeros_loop].
  pose proof (u8_leading_zeros_le_8 b) as Hle.
  rewrite u32_wrapping_add_small by (unfold U32_MODULUS; lia). rewrite N.add_0_l.
  destruct (N.ltb_spec (u8_leading_zeros b) 8) as [Hlt|Hge]; [reflexivity|].
  replace (u8_leading_zeros b) with 8 by lia.
  rewrite leading_zeros_loop_shift by (unfold U32_MODULUS; lia).
  apply N.mod_small. pose proof (leading_zeros_loop_le rest 0).
  cbn [length] in Hfit. rewrite Nat2N.inj_succ in Hfit. lia.
Qed.

(** X1: once a prefix holds a non-zero byte, whatever follows it does not
    change [leading_zeros]: the scan stops inside the prefix. *)
Theorem leading_zeros_app_nonzero (a c : list byte) :
  Exists (fun b => b <> x00) a -> leading_zeros (a ++ c) = leading_zeros a.
Proof. intros Hex. apply leading_zeros_loop_app_nonzero. exact Hex. Qed.

Lemma leading_zeros_app_nonzero_witness :
  leading_zeros ([x00; x10] ++ [x00; x00]) = leading_zeros [x00; x10].
Proof.
  apply leading_zeros_app_nonzero. right. left. discriminate.
Defined.

(** X2: an all-zero prefix adds 8 bits per byte to the count of what
    follows, as long as the total fits in the [u32] count. *)
Theorem leading_zeros_app_zeros (a c : list byte) :
  Forall (fun x => x = x00) a ->
  8 * N.of_nat (length a + length c) < U32_MODULUS ->
  leading_zeros (a ++ c) = 8 * N.of_nat (length a) + leading_zeros c.
Proof.
  intros Hall Hfit. rewrite Nat2N.inj_add in Hfit. unfold leading_zeros.
  rewrite leading_zeros_loop_app_zeros by (first [exact Hall | unfold U32_MODULUS; lia]).
  rewrite N.add_0_l, (N.mod_small (8 * _)) by lia.
  rewrite leading_zeros_loop_shift by lia.
  apply N.mod_small. pose proof (leading_zeros_loop_le c 0). lia.
Qed.

Lemma leading_zeros_app_zeros_witness :
  leading_zeros ([x00; x00] ++ [x03]) = 16 + 6.
Proof.
  apply (leading_zeros_app_zeros [x00; x00] [x03]).
  - repeat constructor.
  - vm_compute. reflexivity.
Defined.

(** X3: [leading_zeros] counts leading zero bits: for a sequence shorter
    than 2^29 bytes, [c <= leading_zeros b] holds exactly when [c] is at
    most the bit length of [b] and the first [c] bits of [b], most
    significant bit of the first byte first, are all clear. *)
Theorem leading_zeros_bits (b : list byte) (c : nat) :
  8 * N.of_nat (length b) < U32_MODULUS ->
  (N.of_nat c <= leading_zeros b <->
   (c <= 8 * length b)%nat /\ forall i, (i < c)%nat -> bit_at b i = false).
Proof.
  revert c; induction b as [|b0 rest IH]; intros c Hfit.
  - cbn. split.
    + intros H. split; [lia|]. intros i _. reflexivity.
    + intros [H _]. lia.
  - rewrite leading_zeros_cons by exact Hfit.
    assert (Hfit' : 8 * N.of_nat (length rest) < U32_MODULUS)
      by (cbn [length] in Hfit; rewrite Nat2N.inj_succ in Hfit; lia).
    destruct (u8_leading_zeros_bits b0) as [Hclear Hset].
    pose proof (u8_leading_zeros_le_8 b0) as Hle.
    cbn [length].
    destruct (N.ltb_spec (u8_leading_zeros b0) 8) as [Hlt|Hge].
    + split.
      * intros Hc. split; [lia|]. intros i Hi. cbn [bit_at].
        destruct (PeanoNat.Nat.ltb_spec i 8) as [Hi8|Hi8]; [|lia].
        apply Hclear. lia.
      * intros [_ Hbits].
        destruct (N.le_gt_cases (N.of_nat c) (u8_leading_zeros b0)) as [Hc|Hc];
          [exact Hc|exfalso].
        specialize (Hbits (N.to_nat (u8_leading_zeros b0)) ltac:(lia)).
        cbn [bit_at] in Hbits.
        destruct (PeanoNat.Nat.ltb_spec (N.to_nat (u8_leading_zeros b0)) 8) as [H8|H8];
          [|lia].
        rewrite (Hset Hlt) in Hbits. discriminate.
    + assert (Hb0 : b0 = x00) by (apply u8_leading_zeros_8_iff; lia). subst b0.
      destruct (PeanoNat.Nat.le_gt_cases c 8) as [Hc8|Hc8].
      * split.
        -- intros _. split; [lia|]. intros i Hi. cbn [bit_at].
           destruct (PeanoNat.Nat.ltb_spec i 8); [reflexivity|lia].
        -- intros _. lia.
      * specialize (IH (c - 8)%nat Hfit').
        split.
        -- intros Hc. destruct (proj1 IH ltac:(lia)) as [Hlen Hbits].
           split; [lia|]. intros i Hi. cbn [bit_at].
           destruct (PeanoNat.Nat.ltb_spec i 8); [reflexivity|].
           apply Hbits. lia.
        -- intros [Hlen Hbits].
           assert (Hrest : N.of_nat (c - 8) <= leading_zeros rest).
           { apply IH. split; [lia|]. intros i Hi.
             specialize (Hbits (i + 8)%nat ltac:(lia)). cbn [bit_at] in Hbits.
             destruct (PeanoNat.Nat.ltb_spec (i + 8) 8); [lia|].
             rewrite PeanoNat.Nat.add_sub in Hbits. exact Hbits. }
           lia.
Qed.

Lemma leading_zeros_bits_witness :
  (N.of_nat 11 <= leading_zeros [x00; x10]) /\ ~ (N.of_nat 12 <= leading_zeros [x00; x10]).
Proof.
  split.
  - apply (leading_zeros_bits [x00; x10] 11); [vm_compute; reflexivity|].
    split; [vm_compute; lia|].
    intros i Hi. do 11 (destruct i as [|i]; [reflexivity|]). lia.
  - rewrite (leading_zeros_bits [x00; x10] 12) by (vm_compute; reflexivity).
    intros [_ H]. specialize (H 11%nat ltac:(lia)). discriminate H.
Defined.

(** ** Further properties of [search] *)

Section SearchMore.

Variable blake3 : list byte -> list byte.
Variable RandError : Type.
Variable rand_stream : nat -> result nonce RandError.

Local Abbreviation loop := (search_loop blake3 RandError rand_stream).

Lemma search_loop_draws_bound (fuel : nat) (bytes : list byte) (cost meter counter : N)
    (d : nat) (r : result nonce (Error RandError)) (k : nat) :
  meter < U32_MAX -> counter <= meter ->
  loop fuel bytes cost meter counter d = Some (r, k) ->
  N.of_nat k <= N.of_nat d + (meter + 1 - counter).
Proof.
  intros Hmax. revert counter d; induction fuel as [|fuel IH]; intros counter d Hc H.
  - discriminate.
  - rewrite search_loop_S in H.
    destruct (rand_stream d) as [m|e].
    + destruct (verify blake3 bytes m cost).
      * injection H as _ <-. rewrite Nat2N.inj_succ. lia.
      * rewrite u32_wrapping_add_small in H by (unfold U32_MAX in Hmax; lia).
        destruct (N.ltb_spec meter (counter + 1)).
        -- injection H as _ <-. rewrite Nat2N.inj_succ. lia.
        -- specialize (IH (counter + 1) (S d) ltac:(lia) H).
           rewrite Nat2N.inj_succ in IH. lia.
    + injection H as _ <-. rewrite Nat2N.inj_succ. lia.
Qed.

Lemma search_loop_finishes (fuel : nat) (bytes : list byte) (cost meter counter : N)
    (d : nat) :
  meter < U32_MAX -> counter <= meter -> meter + 1 - counter <= N.of_nat fuel ->
  loop fuel bytes cost meter counter d <> None.
Proof.
  intros Hmax. revert counter d; induction fuel as [|fuel IH]; intros counter d Hc Hf.
  - simpl in Hf. lia.
  - rewrite search_loop_S.
    destruct (rand_stream d) as [m|e]; [|discriminate].
    destruct (verify blake3 bytes m cost); [discriminate|].
    rewrite u32_wrapping_add_small by (unfold U32_MAX in Hmax; lia).
    destruct (N.ltb_spec meter (counter + 1)); [discriminate|].
    apply IH; [lia|]. rewrite Nat2N.inj_succ in Hf. lia.
Qed.

Lemma search_loop_ok_first (fuel : nat) (bytes : list byte) (cost meter counter : N)
    (d : nat) (n : nonce) (k : nat) :
  loop fuel bytes cost meter counter d = Some (Ok n, k) ->
  exists j, k = S j /\ (d <= j)%nat /\ rand_stream j = Ok n /\
    verify blake3 bytes n cost = true /\
    forall i, (d <= i < j)%nat -> rejected blake3 RandError rand_stream bytes cost i.
Proof.
  revert counter d; induction fuel as [|fuel IH]; intros counter d H.
  - discriminate.
  - rewrite search_loop_S in H.
    destruct (rand_stream d) as [m|e] eqn:Hd; [|discriminate].
    destruct (verify blake3 bytes m cost) eqn:Hv.
    + injection H as <- <-. exists d.
      split; [reflexivity|split; [lia|split; [exact Hd|split; [exact Hv|]]]].
      intros i Hi. lia.
    + destruct (meter <? u32_wrapping_add counter 1); [discriminate|].
      destruct (IH _ _ H) as (j & Hk & Hj & Hn & Hok & Hrej).
      exists j. split; [exact Hk|split; [lia|split; [exact Hn|split; [exact Hok|]]]].
      intros i Hi. destruct (PeanoNat.Nat.eq_dec i d) as [->|Hne].
      * exists m. split; assumption.
      * apply Hrej. lia.
Qed.

Lemma search_loop_meter_mono (fuel : nat) (bytes : list byte) (cost meter meter' counter : N)
    (d : nat) (r : result nonce (Error RandError)) (k : nat) :
  meter <= meter' -> r <> Err MeterOverdrawn ->
  loop fuel bytes cost meter counter d = Some (r, k) ->
  loop fuel bytes cost meter' counter d = Some (r, k).
Proof.
  intros Hm Hr. revert counter d; induction fuel as [|fuel IH]; intros counter d H.
  - discriminate.
  - rewrite search_loop_S in H |- *.
    destruct (rand_stream d) as [m|e]; [|exact H].
    destruct (verify blake3 bytes m cost); [exact H|].
    destruct (N.ltb_spec meter (u32_wrapping_add counter 1)).
    + injection H as <- _. contradiction.
    + destruct (N.ltb_spec meter' (u32_wrapping_add counter 1)); [lia|].
      apply IH. exact H.
Qed.

Lemma search_loop_draws_gt (fuel : nat) (bytes : list byte) (cost meter counter : N)
    (d : nat) (r : result nonce (Error RandError)) (k : nat) :
  loop fuel bytes cost meter counter d = Some (r, k) -> (d < k)%nat.
Proof.
  revert counter d; induction fuel as [|fuel IH]; intros counter d H.
  - discriminate.
  - rewrite search_loop_S in H.
    destruct (rand_stream d) as [m|e];
      [destruct (verify blake3 bytes m cost);
         [|destruct (meter <? u32_wrapping_add counter 1)]|].
    all: try (injection H as _ <-; lia).
    specialize (IH _ _ H). lia.
Qed.

End SearchMore.

Lemma search_loop_prefix (blake3 : list byte -> list byte) (RandError : Type)
    (s1 s2 : nat -> result nonce RandError) (fuel : nat) (bytes : list byte)
    (cost meter counter : N) (d : nat) (r : result nonce (Error RandError)) (k : nat) :
  (forall i, (i < k)%nat -> s1 i = s2 i) ->
  search_loop blake3 RandError s1 fuel bytes cost meter counter d = Some (r, k) ->
  search_loop blake3 RandError s2 fuel bytes cost meter counter d = Some (r, k).
Proof.
  intros Hagree. revert counter d; induction fuel as [|fuel IH]; intros counter d H.
  - discriminate.
  - assert (Hdk : (d < k)%nat) by exact (search_loop_draws_gt _ _ _ _ _ _ _ _ _ _ _ H).
    rewrite search_loop_S in H |- *. rewrite <- (Hagree d Hdk).
    destruct (s1 d) as [m|e]; [|exact H].
    destruct (verify blake3 bytes m cost); [exact H|].
    destruct (meter <? u32_wrapping_add counter 1); [exact H|].
    apply IH. exact H.
Qed.

(** X4: at [cost = 0] every nonce verifies, and [search] returns the first
    draw: the nonce it got, or the random source's error. *)
Theorem search_cost_zero (blake3 : list byte -> list byte) (RandError : Type)
    (rand_stream : nat -> result nonce RandError) (fuel : nat) (bytes : list byte)
    (meter : N) :
  (forall n, verify blake3 bytes n 0 = true) /\
  search blake3 RandError rand_stream (S fuel) bytes 0 meter
  = match rand_stream 0%nat with
    | Ok n => Some (Ok n, 1%nat)
    | Err e => Some (Err (Rand e), 1%nat)
    end.
Proof.
  assert (Hv : forall n, verify blake3 bytes n 0 = true)
    by (intros n; rewrite verify_unfold; apply N.leb_le; lia).
  split; [exact Hv|].
  unfold search. rewrite search_loop_S.
  destruct (rand_stream 0%nat) as [n|e]; [rewrite Hv|]; reflexivity.
Qed.

(** X5: with a 32-byte digest, [verify] rejects every nonce at a cost above
    256. *)
Theorem verify_rejects_cost_above_digest (blake3 : list byte -> list byte)
    (bytes : list byte) (n : nonce) (cost : N) :
  (forall m, length (blake3 m) = 32%nat) -> 256 < cost ->
  verify blake3 bytes n cost = false.
Proof. apply verify_false_above_digest. Qed.

Lemma verify_rejects_cost_above_digest_witness :
  verify (fun _ => repeat x00 32) [x01] [] 300 = false.
Proof.
  apply verify_rejects_cost_above_digest; [intros m; reflexivity|vm_compute; reflexivity].
Defined.

(** X6: for [meter < u32::MAX], [search] draws at most [meter + 1] nonces,
    whatever it returns. *)
Theorem search_draws_at_most_meter_plus_one (blake3 : list byte -> list byte)
    (RandError : Type) (rand_stream : nat -> result nonce RandError) (fuel : nat)
    (bytes : list byte) (cost meter : N) (r : result nonce (Error RandError)) (k : nat) :
  meter < U32_MAX ->
  search blake3 RandError rand_stream fuel bytes cost meter = Some (r, k) ->
  N.of_nat k <= meter + 1.
Proof.
  intros Hmax H.
  pose proof (search_loop_draws_bound _ _ _ _ _ _ _ _ _ _ _ Hmax (N.le_0_l meter) H).
  simpl in H0. lia.
Qed.

Lemma search_draws_at_most_meter_plus_one_witness :
  search (fun _ => repeat x00 32) unit (fun _ => Ok [x07]) 4 [] 3 2
    = Some (Ok [x07], 1%nat) /\ N.of_nat 1 <= 2 + 1.
Proof.
  assert (H : search (fun _ => repeat x00 32) unit (fun _ => Ok [x07]) 4 [] 3 2
                = Some (Ok [x07], 1%nat)) by (vm_compute; reflexivity).
  split; [exact H|].
  apply (search_draws_at_most_meter_plus_one (fun _ => repeat x00 32) unit
           (fun _ => Ok [x07]) 4 [] 3 2 (Ok [x07]) 1%nat).
  - vm_compute. reflexivity.
  - exact H.
Defined.

(** X7: for [meter < u32::MAX], [search] has returned after at most
    [meter + 1] iterations of its loop. *)
Theorem search_finishes_within_meter (blake3 : list byte -> list byte)
    (RandError : Type) (rand_stream : nat -> result nonce RandError) (fuel : nat)
    (bytes : list byte) (cost meter : N) :
  meter < U32_MAX -> meter + 1 <= N.of_nat fuel ->
  search blake3 RandError rand_stream fuel bytes cost meter <> None.
Proof.
  intros Hmax Hf. apply search_loop_finishes; [exact Hmax|lia|lia].
Qed.

Lemma search_finishes_within_meter_witness :
  search (fun _ => repeat xff 32) unit (fun _ => Ok [x07]) 3 [] 1 2 <> None.
Proof.
  apply search_finishes_within_meter; vm_compute; [reflexivity|discriminate].
Defined.

(** X8: the nonce [search] returns is the first accepted draw: it is the
    last nonce drawn, and every draw before it succeeded with a nonce that
    failed the cost. *)
Theorem search_ok_first_accepted (blake3 : list byte -> list byte) (RandError : Type)
    (rand_stream : nat -> result nonce RandError) (fuel : nat) (bytes : list byte)
    (cost meter : N) (n : nonce) (k : nat) :
  search blake3 RandError rand_stream fuel bytes cost meter = Some (Ok n, k) ->
  exists j, k = S j /\ rand_stream j = Ok n /\
    forall i, (i < j)%nat -> rejected blake3 RandError rand_stream bytes cost i.
Proof.
  intros H. destruct (search_loop_ok_first _ _ _ _ _ _ _ _ _ _ _ H)
    as (j & Hk & _ & Hn & _ & Hrej).
  exists j. split; [exact Hk|split; [exact Hn|]]. intros i Hi. apply Hrej. lia.
Qed.

Lemma search_ok_first_accepted_witness :
  exists j, (2 = S j)%nat /\
    (fun i : nat => @Ok nonce unit (if PeanoNat.Nat.eqb i 0 then [xff] else [x00])) j
    = Ok [x00].
Proof.
  destruct (search_ok_first_accepted
              (fun m => m) unit
              (fun i => Ok (if PeanoNat.Nat.eqb i 0 then [xff] else [x00]))
              5 [] 4 3 [x00] 2 ltac:(vm_compute; reflexivity))
    as (j & Hj & Hn & _).
  exists j. split; assumption.
Defined.

(** X9: [search] reads only the draws it makes: if it returns [r] after [k]
    draws, any random source agreeing on those first [k] draws makes it
    return the same [r] after the same [k] draws. *)
Theorem search_depends_on_drawn_prefix (blake3 : list byte -> list byte)
    (RandError : Type) (s1 s2 : nat -> result nonce RandError) (fuel : nat)
    (bytes : list byte) (cost meter : N) (r : result nonce (Error RandError)) (k : nat) :
  (forall i, (i < k)%nat -> s1 i = s2 i) ->
  search blake3 RandError s1 fuel bytes cost meter = Some (r, k) ->
  search blake3 RandError s2 fuel bytes cost meter = Some (r, k).
Proof. apply search_loop_prefix. Qed.

Lemma search_depends_on_drawn_prefix_witness :
  search (fun _ => repeat x00 32) unit
    (fun i => if PeanoNat.Nat.eqb i 0 then Ok [x05] else Err tt) 3 [] 2 7
  = Some (Ok [x05], 1%nat).
Proof.
  apply (search_depends_on_drawn_prefix (fun _ => repeat x00 32) unit
           (fun _ => Ok [x05])).
  - intros i Hi. replace i with 0%nat by lia. reflexivity.
  - vm_compute. reflexivity.
Defined.

(** X10: with [meter = u32::MAX], [search] never fails with
    [MeterOverdrawn]: the wrapped [counter] never exceeds [meter]. *)
Theorem search_meter_max_never_overdrawn (blake3 : list byte -> list byte)
    (RandError : Type) (rand_stream : nat -> result nonce RandError) (fuel : nat)
    (bytes : list byte) (cost : N) (k : nat) :
  search blake3 RandError rand_stream fuel bytes cost U32_MAX
  <> Some (Err MeterOverdrawn, k).
Proof. apply search_loop_overdrawn_meter_max. apply N.le_refl. Qed.

(** X11: a larger meter keeps every outcome other than [MeterOverdrawn]: a
    nonce or random-source error returned under [meter] is returned, after
    the same draws, under any [meter' >= meter]. *)
Theorem search_meter_monotone (blake3 : list byte -> list byte)
    (RandError : Type) (rand_stream : nat -> result nonce RandError) (fuel : nat)
    (bytes : list byte) (cost meter meter' : N) (r : result nonce (Error RandError))
    (k : nat) :
  meter <= meter' -> r <> Err MeterOverdrawn ->
  search blake3 RandError rand_stream fuel bytes cost meter = Some (r, k) ->
  search blake3 RandError rand_stream fuel bytes cost meter' = Some (r, k).
Proof. apply search_loop_meter_mono. Qed.

Lemma search_meter_monotone_witness :
  search (fun m => m) unit
    (fun i => Ok (if PeanoNat.Nat.eqb i 2 then [x00] else [xff])) 6 [] 8 9
  = Some (Ok [x00], 3%nat).
Proof.
  apply (search_meter_monotone (fun m => m) unit
           (fun i => Ok (if PeanoNat.Nat.eqb i 2 then [x00] else [xff])) 6 [] 8 2 9).
  - vm_compute. discriminate.
  - discriminate.
  - vm_compute. reflexivity.
Defined.
